(** * CompactArduino: the register-level blink program

    A shallow embedding of [blink_162_0.ino] (both variants: the one that
    writes the mask as [(1 << PB5)] and the one that writes it as
    [(1 << 5)]) and of the register-level sketches of the tutorial text.

    The program is

<<
      int main() {
        DDRB |= (1 << PB5);
        while (1) {
          PORTB ^= (1 << PB5);
          _delay_ms(1000);
        }
      }
>>

    The memory-mapped registers [DDRB] and [PORTB] are 8-bit; they are kept
    as [Z] with the conversion back to [uint8_t] written out as [wrap8].
    The observable behaviour of a run is the sequence of register writes
    and delay pauses it performs. *)

From Stdlib Require Import ZArith List Bool Lia.
Import ListNotations.

Local Open Scope Z_scope.

(* ================================================================== *)
(** ** Registers and events *)

(** Conversion of an [int] result to the 8-bit register type. *)
Definition wrap8 (z : Z) : Z := z mod 256.

(** The values a [uint8_t] register can hold. *)
Definition reg_ok (z : Z) : Prop := 0 <= z < 256.

(** Modelled from the spec: the macro [PB5] comes from [<avr/io.h>], which
    is not part of the repository.  The tutorial text identifies PB5 with
    the bit it sets through [(1 << 5)] in registers DDRB and PORTB. *)
Definition PB5 : Z := 5.

(** The two memory-mapped registers the program touches. *)
Record regs : Type := mkRegs { DDRB : Z; PORTB : Z }.

(** Externally visible actions: a store to one of the two registers, or a
    busy-wait of the given number of milliseconds. *)
Inductive event : Type :=
| WrDDRB (v : Z)
| WrPORTB (v : Z)
| DelayMs (ms : Z).

(** The two source files differ only in how the bit number is written. *)
Inductive variant : Type :=
| WithPB5        (* DDRB |= (1 << PB5); PORTB ^= (1 << PB5); *)
| WithLiteral5.  (* DDRB |= (1 << 5);   PORTB ^= (1 << 5);   *)

Definition bit_of (v : variant) : Z :=
  match v with
  | WithPB5 => PB5
  | WithLiteral5 => 5
  end.

(** [(1 << bit)] *)
Definition mask (v : variant) : Z := Z.shiftl 1 (bit_of v).

(** The argument of [_delay_ms] in the loop body. *)
Definition delay_ms : Z := 1000.

(** The controlling expression of [while (1)]. *)
Definition while_cond : Z := 1.

(* ================================================================== *)
(** ** The statements of [main] *)

(** [DDRB |= (1 << bit);] *)
Definition setup (v : variant) (r : regs) : regs :=
  mkRegs (wrap8 (Z.lor (DDRB r) (mask v))) (PORTB r).

(** [PORTB ^= (1 << bit);] *)
Definition toggle (v : variant) (r : regs) : regs :=
  mkRegs (DDRB r) (wrap8 (Z.lxor (PORTB r) (mask v))).

(* ================================================================== *)
(** ** Small-step semantics of [main] *)

(** Control points of [main]. *)
Inductive pc : Type :=
| AtSetup    (* before  DDRB |= ...        *)
| AtWhile    (* at the test of while (1)   *)
| AtToggle   (* before  PORTB ^= ...       *)
| AtDelay    (* before  _delay_ms(1000)    *)
| AtReturn.  (* past the loop: main returns *)

Definition state : Type := (pc * regs)%type.

Definition initial (r : regs) : state := (AtSetup, r).

(** One step, with the events it emits. *)
Inductive Step (v : variant) : state -> list event -> state -> Prop :=
| StepSetup r :
    Step v (AtSetup, r) [WrDDRB (DDRB (setup v r))] (AtWhile, setup v r)
| StepEnter r :
    while_cond <> 0 ->
    Step v (AtWhile, r) [] (AtToggle, r)
| StepLeave r :
    while_cond = 0 ->
    Step v (AtWhile, r) [] (AtReturn, r)
| StepToggle r :
    Step v (AtToggle, r) [WrPORTB (PORTB (toggle v r))] (AtDelay, toggle v r)
| StepDelay r :
    Step v (AtDelay, r) [DelayMs delay_ms] (AtWhile, r).

(** Finite executions and the trace they leave. *)
Inductive Steps (v : variant) : state -> list event -> state -> Prop :=
| StepsRefl s : Steps v s [] s
| StepsCons s1 t1 s2 t2 s3 :
    Step v s1 t1 s2 -> Steps v s2 t2 s3 -> Steps v s1 (t1 ++ t2) s3.

(** Executions as counted sequences of steps. *)
Inductive StepsN (v : variant) : nat -> state -> list event -> state -> Prop :=
| StepsNO s : StepsN v O s [] s
| StepsNS n s1 t1 s2 t2 s3 :
    Step v s1 t1 s2 -> StepsN v n s2 t2 s3 -> StepsN v (S n) s1 (t1 ++ t2) s3.

(** A state the program can be in, started on registers [r0]. *)
Definition reachable (v : variant) (r0 : regs) (s : state) : Prop :=
  exists tr, Steps v (initial r0) tr s.

(** The same step as a function; [None] once [main] has returned. *)
Definition step (v : variant) (s : state) : option (list event * state) :=
  let '(p, r) := s in
  match p with
  | AtSetup => Some ([WrDDRB (DDRB (setup v r))], (AtWhile, setup v r))
  | AtWhile =>
      if while_cond =? 0 then Some ([], (AtReturn, r))
      else Some ([], (AtToggle, r))
  | AtToggle => Some ([WrPORTB (PORTB (toggle v r))], (AtDelay, toggle v r))
  | AtDelay => Some ([DelayMs delay_ms], (AtWhile, r))
  | AtReturn => None
  end.

(** At most [n] steps; stops early if [main] returns. *)
Fixpoint run (v : variant) (n : nat) (s : state) : list event * state :=
  match n with
  | O => ([], s)
  | S k =>
      match step v s with
      | None => ([], s)
      | Some (t, s') => let '(t', s'') := run v k s' in (t ++ t', s'')
      end
  end.

(** Steps needed for the setup followed by [n] full loop iterations. *)
Definition steps_of_iterations (n : nat) : nat := (1 + 3 * n)%nat.

(** The run up to the end of the [n]-th loop iteration. *)
Definition main_upto (v : variant) (n : nat) (r0 : regs) : list event * state :=
  run v (steps_of_iterations n) (initial r0).

(** The registers after [n] executions of the toggle statement. *)
Fixpoint after_toggles (v : variant) (n : nat) (r : regs) : regs :=
  match n with
  | O => r
  | S k => after_toggles v k (toggle v r)
  end.

(* ================================================================== *)
(** ** Reading a trace *)

(** The events of [n] loop iterations started on registers [r]. *)
Fixpoint loop_trace (v : variant) (n : nat) (r : regs) : list event :=
  match n with
  | O => []
  | S k =>
      WrPORTB (PORTB (toggle v r)) :: DelayMs delay_ms
        :: loop_trace v k (toggle v r)
  end.

Definition is_ddrb_write (e : event) : bool :=
  match e with WrDDRB _ => true | _ => false end.

Definition is_portb_write (e : event) : bool :=
  match e with WrPORTB _ => true | _ => false end.

Definition is_delay (e : event) : bool :=
  match e with DelayMs _ => true | _ => false end.

(** Total time spent in delays. *)
Fixpoint elapsed (tr : list event) : Z :=
  match tr with
  | [] => 0
  | DelayMs d :: tr' => d + elapsed tr'
  | _ :: tr' => elapsed tr'
  end.

(** The content of PORTB at time [t] of a trace, register stores taking no
    time and [cur] being the content before the trace starts. *)
Fixpoint port_at (tr : list event) (cur : Z) (t : Z) : Z :=
  match tr with
  | [] => cur
  | WrPORTB p :: tr' => port_at tr' p t
  | WrDDRB _ :: tr' => port_at tr' cur t
  | DelayMs d :: tr' => if t <? d then cur else port_at tr' cur (t - d)
  end.

(** Level of the output line (bit 5 of PORTB) at time [t] of the run that
    performs [n] loop iterations. *)
Definition level_at (v : variant) (n : nat) (r0 : regs) (t : Z) : bool :=
  Z.testbit (port_at (fst (main_upto v n r0)) (PORTB r0) t) 5.

(** The first value stored to PORTB, if any. *)
Fixpoint first_portb_write (tr : list event) : option Z :=
  match tr with
  | [] => None
  | WrPORTB p :: _ => Some p
  | _ :: tr' => first_portb_write tr'
  end.

(* ================================================================== *)
(** ** Frame of the program: the bits it leaves alone *)

(** Two register contents that agree on bits 0-4, 6 and 7. *)
Definition same_outside_bit5 (a b : Z) : Prop :=
  forall i : Z, 0 <= i < 8 -> i <> 5 -> Z.testbit b i = Z.testbit a i.

Definition frame (r0 r : regs) : Prop :=
  same_outside_bit5 (DDRB r0) (DDRB r)
  /\ same_outside_bit5 (PORTB r0) (PORTB r).

(** A store that respects the frame of its register. *)
Definition event_in_frame (r0 : regs) (e : event) : Prop :=
  match e with
  | WrDDRB x => same_outside_bit5 (DDRB r0) x
  | WrPORTB x => same_outside_bit5 (PORTB r0) x
  | DelayMs _ => True
  end.

(** Past the setup statement, with DDRB holding [d]. *)
Definition past_setup (d : Z) (s : state) : Prop :=
  fst s <> AtSetup /\ DDRB (snd s) = d.

Definition not_returned (s : state) : Prop := fst s <> AtReturn.

Definition delay_is_1000 (e : event) : Prop :=
  match e with
  | DelayMs d => d = 1000
  | _ => True
  end.

(* ================================================================== *)
(** ** The setup/loop sketches of the tutorial

    Before the single [main], the tutorial gives the program as a pair of
    functions [setup] and [loop] that work on the registers directly:

<<
      void setup(){ DDRB |= (1 << 5); }

      void loop(){                      void loop(){
        PORTB |=  (1 << 5);               PORTB ^= (1 << 5);
        delay(1000);                      delay(1000);
        PORTB &= ~(1 << 5);             }
        delay(1000);
      }
>>

    A function body is a state transformer that also yields the events it
    performs.  A pause of [delay(1000)] is the event [DelayMs 1000]. *)

Definition action : Type := regs -> list event * regs.

(** [PORTB |= (1 << 5);] *)
Definition portb_set (r : regs) : regs :=
  mkRegs (DDRB r) (wrap8 (Z.lor (PORTB r) (Z.shiftl 1 5))).

(** [PORTB &= ~(1 << 5);] *)
Definition portb_clear (r : regs) : regs :=
  mkRegs (DDRB r) (wrap8 (Z.land (PORTB r) (Z.lnot (Z.shiftl 1 5)))).

(** [void setup(){ DDRB |= (1 << 5); }] *)
Definition sketch_setup : action :=
  fun r =>
    let r1 := setup WithLiteral5 r in
    ([WrDDRB (DDRB r1)], r1).

(** [void loop()] of the variant that sets and clears the bit. *)
Definition loop_set_clear : action :=
  fun r =>
    let r1 := portb_set r in
    let r2 := portb_clear r1 in
    ([WrPORTB (PORTB r1); DelayMs 1000; WrPORTB (PORTB r2); DelayMs 1000], r2).

(** [void loop()] of the variant that toggles the bit. *)
Definition loop_toggle : action :=
  fun r =>
    let r1 := toggle WithLiteral5 r in
    ([WrPORTB (PORTB r1); DelayMs 1000], r1).

(** [n] consecutive calls of a [loop] body. *)
Fixpoint repeat_loop (body : action) (n : nat) (r : regs) : list event * regs :=
  match n with
  | O => ([], r)
  | S k =>
      let '(t, r1) := body r in
      let '(t', r2) := repeat_loop body k r1 in
      (t ++ t', r2)
  end.

(** Modelled from the spec: the framework that calls the two functions is
    not part of the repository.  The tutorial text states its execution
    model: [setup] runs once, [loop] runs after it, again and again.  This
    is the sketch up to the end of the [n]-th call of [loop]. *)
Definition sketch_upto (body : action) (n : nat) (r0 : regs)
  : list event * regs :=
  let '(t0, r1) := sketch_setup r0 in
  let '(t, r2) := repeat_loop body n r1 in
  (t0 ++ t, r2).

(** The value the [k]-th toggle (counted from 0) stores when PORTB starts
    as [p]. *)
Definition toggled_value (p : Z) (k : nat) : Z :=
  if Nat.even k then Z.lxor p 32 else p.

(* ================================================================== *)
(** ** The program on concrete registers *)

Example run_two_iterations :
  main_upto WithPB5 2 (mkRegs 0 0)
  = ([WrDDRB 32; WrPORTB 32; DelayMs 1000; WrPORTB 0; DelayMs 1000],
     (AtWhile, mkRegs 32 0)).
Proof. reflexivity. Qed.

Example run_keeps_other_bits :
  main_upto WithLiteral5 1 (mkRegs 195 161)
  = ([WrDDRB 227; WrPORTB 129; DelayMs 1000], (AtWhile, mkRegs 227 129)).
Proof. reflexivity. Qed.

Example run_mid_iteration :
  run WithPB5 3 (initial (mkRegs 0 0))
  = ([WrDDRB 32; WrPORTB 32], (AtDelay, mkRegs 32 32)).
Proof. reflexivity. Qed.

Example waveform_samples :
  map (level_at WithPB5 4 (mkRegs 0 0)) [0; 999; 1000; 1999; 2000; 3999]
  = [true; true; false; false; true; false].
Proof. reflexivity. Qed.

(* ================================================================== *)
(** ** Bit-level facts about the two read-modify-write statements *)

Lemma mask_value (v : variant) : mask v = 32.
Proof. destruct v; reflexivity. Qed.

Lemma wrap8_range (z : Z) : reg_ok (wrap8 z).
Proof. unfold reg_ok, wrap8. apply Z.mod_pos_bound. lia. Qed.

Lemma wrap8_small (z : Z) : reg_ok z -> wrap8 z = z.
Proof. unfold reg_ok, wrap8. intros H. now apply Z.mod_small. Qed.

Lemma wrap8_testbit (z i : Z) :
  0 <= i < 8 -> Z.testbit (wrap8 z) i = Z.testbit z i.
Proof.
  intros Hi. unfold wrap8. change 256 with (2 ^ 8).
  apply Z.mod_pow2_bits_low. lia.
Qed.

Lemma wrap8_idem (z : Z) : wrap8 (wrap8 z) = wrap8 z.
Proof. apply wrap8_small, wrap8_range. Qed.

(** Bit [i] of the constant 32, for the bits of a byte. *)
Lemma testbit_32 (i : Z) :
  0 <= i < 8 -> Z.testbit 32 i = (i =? 5).
Proof.
  intros Hi.
  assert (i = 0 \/ i = 1 \/ i = 2 \/ i = 3 \/ i = 4 \/ i = 5 \/ i = 6 \/ i = 7)
    as Hc by lia.
  repeat (destruct Hc as [-> | Hc]; [reflexivity | ]). now subst.
Qed.

Lemma setup_DDRB_bit (v : variant) (r : regs) (i : Z) :
  0 <= i < 8 ->
  Z.testbit (DDRB (setup v r)) i = Z.testbit (DDRB r) i || (i =? 5).
Proof.
  intros Hi. cbn [setup DDRB].
  now rewrite wrap8_testbit, Z.lor_spec, mask_value, testbit_32.
Qed.

Lemma toggle_PORTB_bit (v : variant) (r : regs) (i : Z) :
  0 <= i < 8 ->
  Z.testbit (PORTB (toggle v r)) i = xorb (Z.testbit (PORTB r) i) (i =? 5).
Proof.
  intros Hi. cbn [toggle PORTB].
  now rewrite wrap8_testbit, Z.lxor_spec, mask_value, testbit_32.
Qed.

Lemma toggle_PORTB_bit5 (v : variant) (r : regs) :
  Z.testbit (PORTB (toggle v r)) 5 = negb (Z.testbit (PORTB r) 5).
Proof.
  rewrite toggle_PORTB_bit by lia. cbn. now rewrite xorb_true_r.
Qed.

Lemma setup_PORTB (v : variant) (r : regs) : PORTB (setup v r) = PORTB r.
Proof. reflexivity. Qed.

Lemma toggle_DDRB (v : variant) (r : regs) : DDRB (toggle v r) = DDRB r.
Proof. reflexivity. Qed.

(** A byte with bit 5 set is a fixed point of [| 32]. *)
Lemma lor_32_fixed (z : Z) : Z.testbit z 5 = true -> Z.lor z 32 = z.
Proof.
  intros H5. apply Z.bits_inj'. intros i Hi.
  rewrite Z.lor_spec.
  destruct (Z.eq_dec i 5) as [-> | Hne].
  - rewrite H5. reflexivity.
  - replace (Z.testbit 32 i) with false; [apply orb_false_r | ].
    symmetry. change 32 with (2 ^ 5). apply Z.pow2_bits_false. lia.
Qed.

Lemma after_toggles_DDRB (v : variant) (n : nat) (r : regs) :
  DDRB (after_toggles v n r) = DDRB r.
Proof.
  revert r. induction n as [| n IH]; intros r; cbn [after_toggles].
  - reflexivity.
  - now rewrite IH.
Qed.

Lemma after_toggles_PORTB_bit (v : variant) (n : nat) (r : regs) (i : Z) :
  0 <= i < 8 ->
  Z.testbit (PORTB (after_toggles v n r)) i
  = xorb (Z.testbit (PORTB r) i) ((i =? 5) && Nat.odd n).
Proof.
  intros Hi. revert r. induction n as [| n IH]; intros r.
  - cbn [after_toggles Nat.odd]. now rewrite andb_false_r, xorb_false_r.
  - cbn [after_toggles]. rewrite IH, toggle_PORTB_bit by exact Hi.
    rewrite Nat.odd_succ, <- Nat.negb_odd.
    destruct (i =? 5), (Nat.odd n), (Z.testbit (PORTB r) i); reflexivity.
Qed.

(* ================================================================== *)
(** ** The step function and the step relation agree *)

Lemma while_cond_nonzero : while_cond <> 0.
Proof. discriminate. Qed.

Lemma step_Step (v : variant) (s s' : state) (t : list event) :
  step v s = Some (t, s') <-> Step v s t s'.
Proof.
  split.
  - destruct s as [[] r]; cbn; intros H; inversion H; subst; constructor.
    exact while_cond_nonzero.
  - intros H. destruct H; cbn; try reflexivity.
    now destruct while_cond_nonzero.
Qed.

Lemma Step_deterministic (v : variant) (s s1 s2 : state) (t1 t2 : list event) :
  Step v s t1 s1 -> Step v s t2 s2 -> t1 = t2 /\ s1 = s2.
Proof.
  intros H1 H2. apply step_Step in H1, H2.
  rewrite H1 in H2. now inversion H2.
Qed.

Lemma run_Steps (v : variant) (n : nat) (s : state) :
  Steps v s (fst (run v n s)) (snd (run v n s)).
Proof.
  revert s. induction n as [| n IH]; intros s; cbn [run].
  - constructor.
  - destruct (step v s) as [[t s'] | ] eqn:E.
    + specialize (IH s'). destruct (run v n s') as [t' s''].
      cbn [fst snd] in *. econstructor; [ | exact IH ]. now apply step_Step.
    + constructor.
Qed.

Lemma StepsN_run (v : variant) (n : nat) (s s' : state) (tr : list event) :
  StepsN v n s tr s' -> run v n s = (tr, s').
Proof.
  induction 1 as [s | n s1 t1 s2 t2 s3 H1 _ IH]; cbn [run].
  - reflexivity.
  - apply step_Step in H1. now rewrite H1, IH.
Qed.

Lemma Steps_StepsN (v : variant) (s s' : state) (tr : list event) :
  Steps v s tr s' <-> exists n, StepsN v n s tr s'.
Proof.
  split.
  - induction 1 as [s | s1 t1 s2 t2 s3 H1 _ [n IH]].
    + exists O. constructor.
    + exists (S n). econstructor; eassumption.
  - intros [n H]. induction H; econstructor; eassumption.
Qed.

(* ================================================================== *)
(** ** Runs cut at iteration boundaries *)

Lemma run_iteration (v : variant) (k : nat) (r : regs) :
  run v (3 + k) (AtWhile, r)
  = (WrPORTB (PORTB (toggle v r)) :: DelayMs delay_ms
       :: fst (run v k (AtWhile, toggle v r)),
     snd (run v k (AtWhile, toggle v r))).
Proof.
  change (3 + k)%nat with (S (S (S k))).
  cbn [run step]. change (while_cond =? 0) with false. cbn [run step].
  destruct (run v k (AtWhile, toggle v r)) as [t s]. reflexivity.
Qed.

Lemma run_loop (v : variant) (n : nat) (r : regs) :
  run v (3 * n) (AtWhile, r)
  = (loop_trace v n r, (AtWhile, after_toggles v n r)).
Proof.
  revert r. induction n as [| n IH]; intros r.
  - reflexivity.
  - replace (3 * S n)%nat with (3 + 3 * n)%nat by lia.
    rewrite run_iteration, IH. reflexivity.
Qed.

Lemma main_upto_eq (v : variant) (n : nat) (r0 : regs) :
  main_upto v n r0
  = (WrDDRB (DDRB (setup v r0)) :: loop_trace v n (setup v r0),
     (AtWhile, after_toggles v n (setup v r0))).
Proof.
  unfold main_upto, steps_of_iterations, initial.
  change (1 + 3 * n)%nat with (S (3 * n)).
  cbn [run step]. now rewrite run_loop.
Qed.

Lemma elapsed_loop_trace (v : variant) (n : nat) (r : regs) :
  elapsed (loop_trace v n r) = delay_ms * Z.of_nat n.
Proof.
  revert r. induction n as [| n IH]; intros r.
  - cbn. lia.
  - cbn [loop_trace elapsed]. rewrite IH. lia.
Qed.

Lemma portb_writes_loop_trace (v : variant) (n : nat) (r : regs) :
  length (filter is_portb_write (loop_trace v n r)) = n.
Proof.
  revert r. induction n as [| n IH]; intros r; cbn; [ | rewrite IH ];
    reflexivity.
Qed.

Lemma delays_loop_trace (v : variant) (n : nat) (r : regs) :
  length (filter is_delay (loop_trace v n r)) = n.
Proof.
  revert r. induction n as [| n IH]; intros r; cbn; [ | rewrite IH ];
    reflexivity.
Qed.

(** The waveform during the loop: in the [k]-th window of [delay_ms] the
    line carries the start level inverted [k + 1] times. *)
Lemma port_at_loop_trace (v : variant) (n : nat) (r : regs) (cur t : Z) :
  0 <= t < delay_ms * Z.of_nat n ->
  Z.testbit (port_at (loop_trace v n r) cur t) 5
  = xorb (Z.testbit (PORTB r) 5) (Z.even (t / delay_ms)).
Proof.
  revert r cur t. induction n as [| n IH]; intros r cur t Ht.
  - unfold delay_ms in Ht. lia.
  - cbn [loop_trace port_at].
    destruct (Z.ltb_spec t delay_ms) as [Hlt | Hge].
    + rewrite Z.div_small by lia.
      rewrite toggle_PORTB_bit5. cbn. now rewrite xorb_true_r.
    + rewrite IH by (unfold delay_ms in *; lia).
      rewrite toggle_PORTB_bit5.
      replace t with ((t - delay_ms) + 1 * delay_ms) at 2 by lia.
      rewrite Z.div_add by (unfold delay_ms; lia).
      rewrite Z.even_add. cbn [Z.even].
      destruct (Z.testbit (PORTB r) 5), (Z.even ((t - delay_ms) / delay_ms));
        reflexivity.
Qed.

Lemma level_at_eq (v : variant) (n : nat) (r0 : regs) (t : Z) :
  0 <= t < delay_ms * Z.of_nat n ->
  level_at v n r0 t = xorb (Z.testbit (PORTB r0) 5) (Z.even (t / delay_ms)).
Proof.
  intros Ht. unfold level_at. rewrite main_upto_eq. cbn [fst port_at].
  now rewrite port_at_loop_trace.
Qed.

Lemma parity_of_nat (n : nat) :
  Z.even (Z.of_nat n) = Nat.even n /\ Z.odd (Z.of_nat n) = Nat.odd n.
Proof.
  induction n as [| n [IHe IHo]].
  - split; reflexivity.
  - rewrite Nat2Z.inj_succ, Z.even_succ, Z.odd_succ, Nat.even_succ,
      Nat.odd_succ. now split.
Qed.

Lemma window_index (t : Z) (k : nat) :
  delay_ms * Z.of_nat k <= t < delay_ms * (Z.of_nat k + 1) ->
  t / delay_ms = Z.of_nat k.
Proof.
  intros Ht. symmetry.
  apply Z.div_unique with (r := t - delay_ms * Z.of_nat k);
    unfold delay_ms in *; lia.
Qed.

(* ================================================================== *)
(** ** The blink waveform *)

(** C1: for every initial register state and either variant, after the
    setup and [n] loop iterations bit 5 of PORTB is its initial value XOR
    the parity of [n]; the run has then spent [1000 * n] time units in
    delays; during the [k]-th iteration's pause, a window of exactly 1000
    time units, the line holds the level reached after [k + 1] toggles;
    hence the level is inverted 1000 units later and repeats with period
    2000. *)
Theorem blink_alternates (v : variant) (n : nat) (r0 : regs) :
  Z.testbit (PORTB (snd (snd (main_upto v n r0)))) 5
    = xorb (Z.testbit (PORTB r0) 5) (Nat.odd n)
  /\ elapsed (fst (main_upto v n r0)) = 1000 * Z.of_nat n
  /\ (forall (k : nat) (t : Z),
        (k < n)%nat ->
        1000 * Z.of_nat k <= t < 1000 * (Z.of_nat k + 1) ->
        level_at v n r0 t = xorb (Z.testbit (PORTB r0) 5) (Nat.odd (S k)))
  /\ (forall t : Z,
        0 <= t -> t + 2000 < 1000 * Z.of_nat n ->
        level_at v n r0 (t + 1000) = negb (level_at v n r0 t)
        /\ level_at v n r0 (t + 2000) = level_at v n r0 t).
Proof.
  repeat split.
  - rewrite main_upto_eq. cbn [snd].
    rewrite after_toggles_PORTB_bit by lia. now rewrite setup_PORTB.
  - rewrite main_upto_eq. cbn [fst elapsed].
    now rewrite elapsed_loop_trace.
  - intros k t Hk Ht. change 1000 with delay_ms in Ht.
    rewrite level_at_eq by (unfold delay_ms in *; lia).
    rewrite (window_index t k Ht), Nat.odd_succ.
    now rewrite (proj1 (parity_of_nat k)).
  - rewrite !level_at_eq by (unfold delay_ms; lia).
    replace (t + 1000) with (t + 1 * delay_ms) by reflexivity.
    rewrite Z.div_add by (unfold delay_ms; lia).
    rewrite Z.even_add. cbn [Z.even].
    destruct (Z.testbit (PORTB r0) 5), (Z.even (t / delay_ms)); reflexivity.
  - rewrite !level_at_eq by (unfold delay_ms; lia).
    replace (t + 2000) with (t + 2 * delay_ms) by reflexivity.
    rewrite Z.div_add by (unfold delay_ms; lia).
    rewrite Z.even_add. cbn [Z.even].
    now destruct (Z.even (t / delay_ms)).
Qed.

Lemma blink_alternates_witness :
  level_at WithPB5 4 (mkRegs 0 0) 1500 = false
  /\ level_at WithPB5 4 (mkRegs 0 0) (500 + 1000) = negb (level_at WithPB5 4 (mkRegs 0 0) 500).
Proof.
  split.
  - apply (proj1 (proj2 (proj2 (blink_alternates WithPB5 4 (mkRegs 0 0)))) 1%nat 1500);
      lia.
  - apply (proj2 (proj2 (proj2 (blink_alternates WithPB5 4 (mkRegs 0 0)))) 500);
      lia.
Defined.

(* ================================================================== *)
(** ** The two variants *)

Lemma step_variants (s : state) : step WithPB5 s = step WithLiteral5 s.
Proof. destruct s as [[] r]; reflexivity. Qed.

(** C2: started from the same registers, the variant written with
    [(1 << PB5)] and the variant written with [(1 << 5)] perform, after any
    number of steps, the same sequence of DDRB writes, PORTB writes and
    delays, and are in the same state. *)
Theorem variants_equivalent (n : nat) (r0 : regs) :
  run WithPB5 n (initial r0) = run WithLiteral5 n (initial r0).
Proof.
  generalize (initial r0) as s.
  induction n as [| n IH]; intros s; cbn [run].
  - reflexivity.
  - rewrite step_variants.
    destruct (step WithLiteral5 s) as [[t s'] | ]; [ | reflexivity ].
    now rewrite IH.
Qed.

(* ================================================================== *)
(** ** Invariants of runs *)

(** A state predicate kept by every step, together with an event predicate
    met by every emitted event, holds along any run. *)
Lemma run_invariant (v : variant) (P : state -> Prop) (Q : event -> Prop) :
  (forall s t s', Step v s t s' -> P s -> P s' /\ Forall Q t) ->
  forall (n : nat) (s : state),
    P s -> P (snd (run v n s)) /\ Forall Q (fst (run v n s)).
Proof.
  intros Hstep. induction n as [| n IH]; intros s Hs; cbn [run].
  - split; [exact Hs | constructor].
  - destruct (step v s) as [[t s'] | ] eqn:E.
    + apply step_Step in E. destruct (Hstep _ _ _ E Hs) as [Hs' Ht].
      destruct (IH s' Hs') as [Hend Htr].
      destruct (run v n s') as [t' s'']. cbn [fst snd] in *.
      split; [exact Hend | ]. apply Forall_app. now split.
    + split; [exact Hs | constructor].
Qed.

Lemma Steps_run (v : variant) (s s' : state) (tr : list event) :
  Steps v s tr s' -> exists n, run v n s = (tr, s').
Proof.
  intros H. apply Steps_StepsN in H. destruct H as [n H].
  exists n. now apply StepsN_run.
Qed.

Lemma not_returned_step (v : variant) (s : state) (t : list event) (s' : state) :
  Step v s t s' -> not_returned s -> not_returned s' /\ Forall (fun _ => True) t.
Proof.
  intros H _. split.
  - destruct H; unfold not_returned; cbn; discriminate.
  - apply Forall_forall. trivial.
Qed.

Lemma reachable_not_returned (v : variant) (r0 : regs) (s : state) :
  reachable v r0 s -> not_returned s.
Proof.
  intros [tr H]. apply Steps_run in H. destruct H as [n H].
  pose proof (run_invariant v _ _ (not_returned_step v) n (initial r0)) as Hinv.
  rewrite H in Hinv. apply Hinv. unfold not_returned. cbn. discriminate.
Qed.

Lemma not_returned_progress (v : variant) (s : state) :
  not_returned s -> exists t s', Step v s t s'.
Proof.
  destruct s as [[] r]; unfold not_returned; cbn; intros H.
  - eexists _, _. apply StepSetup.
  - eexists _, _. apply StepEnter. exact while_cond_nonzero.
  - eexists _, _. apply StepToggle.
  - eexists _, _. apply StepDelay.
  - now destruct H.
Qed.

Lemma not_returned_StepsN (v : variant) (n : nat) (s : state) :
  not_returned s -> StepsN v n s (fst (run v n s)) (snd (run v n s)).
Proof.
  revert s. induction n as [| n IH]; intros s Hs; cbn [run].
  - constructor.
  - destruct (not_returned_progress v s Hs) as (t & s' & Hst).
    pose proof Hst as E. apply step_Step in E. rewrite E.
    specialize (IH s' (proj1 (not_returned_step v s t s' Hst Hs))).
    destruct (run v n s') as [t' s'']. cbn [fst snd] in *.
    econstructor; eassumption.
Qed.

Lemma past_setup_step (v : variant) (d : Z) (s : state) (t : list event) (s' : state) :
  Step v s t s' -> past_setup d s ->
  past_setup d s' /\ Forall (fun e => is_ddrb_write e = false) t.
Proof.
  intros H [Hpc Hd]. destruct H; cbn in *;
    try (now destruct Hpc);
    (split; [split; [discriminate | exact Hd] | repeat constructor]).
Qed.

Lemma filter_none {A : Type} (f : A -> bool) (l : list A) :
  Forall (fun x => f x = false) l -> filter f l = [].
Proof.
  induction 1 as [| x l Hx _ IH]; cbn; [ | rewrite Hx ]; auto.
Qed.

Lemma same_outside_bit5_refl (a : Z) : same_outside_bit5 a a.
Proof. intros i _ _. reflexivity. Qed.

Lemma frame_step (v : variant) (r0 : regs) (s : state) (t : list event) (s' : state) :
  Step v s t s' -> frame r0 (snd s) ->
  frame r0 (snd s') /\ Forall (event_in_frame r0) t.
Proof.
  intros H [Hd Hp]. destruct H; cbn [snd] in *.
  - assert (same_outside_bit5 (DDRB r0) (DDRB (setup v r))) as Hd'.
    { intros i Hi Hne. rewrite setup_DDRB_bit by exact Hi.
      rewrite (proj2 (Z.eqb_neq i 5) Hne), orb_false_r. now apply Hd. }
    split; [split; [exact Hd' | exact Hp] | ].
    repeat constructor. exact Hd'.
  - split; [now split | constructor].
  - split; [now split | constructor].
  - assert (same_outside_bit5 (PORTB r0) (PORTB (toggle v r))) as Hp'.
    { intros i Hi Hne. rewrite toggle_PORTB_bit by exact Hi.
      rewrite (proj2 (Z.eqb_neq i 5) Hne), xorb_false_r. now apply Hp. }
    split; [split; [exact Hd | exact Hp'] | ].
    repeat constructor. exact Hp'.
  - split; [now split | ]. repeat constructor.
Qed.

Lemma delay_step (v : variant) (s : state) (t : list event) (s' : state) :
  Step v s t s' -> True -> True /\ Forall delay_is_1000 t.
Proof.
  intros H _. split; [exact I | ].
  destruct H; repeat constructor.
Qed.

(* ================================================================== *)
(** ** Direction is configured once, before any toggle *)

(** C3: in either variant, every run of at least one step starts with the
    store to DDRB, which sets bit 5; every later event is something other
    than a DDRB store (so the run holds exactly one DDRB store, ahead of
    every PORTB toggle), and DDRB keeps the stored value from then on. *)
Theorem ddrb_set_once_before_toggle (v : variant) (r0 : regs) (n : nat) :
  exists tr' : list event,
    fst (run v (S n) (initial r0)) = WrDDRB (DDRB (setup v r0)) :: tr'
    /\ Z.testbit (DDRB (setup v r0)) 5 = true
    /\ Forall (fun e => is_ddrb_write e = false) tr'
    /\ length (filter is_ddrb_write (fst (run v (S n) (initial r0)))) = 1%nat
    /\ DDRB (snd (snd (run v (S n) (initial r0)))) = DDRB (setup v r0).
Proof.
  assert (past_setup (DDRB (setup v r0)) (AtWhile, setup v r0)) as Hps
    by (split; [discriminate | reflexivity]).
  destruct (run_invariant v _ _ (past_setup_step v (DDRB (setup v r0)))
              n (AtWhile, setup v r0) Hps) as [[_ Hd] Htr].
  unfold initial. cbn [run step].
  destruct (run v n (AtWhile, setup v r0)) as [tr' s']. cbn [fst snd app] in *.
  exists tr'. repeat split.
  - rewrite setup_DDRB_bit by lia. apply orb_true_r.
  - exact Htr.
  - cbn [filter is_ddrb_write]. now rewrite (filter_none _ _ Htr).
  - exact Hd.
Qed.

(* ================================================================== *)
(** ** The loop never exits *)

Lemma toggles_from (v : variant) (n : nat) (s : state) :
  not_returned s ->
  exists k : nat,
    (n <= length (filter is_portb_write (fst (run v k s))))%nat
    /\ (n <= length (filter is_delay (fst (run v k s))))%nat.
Proof.
  destruct s as [[] r]; unfold not_returned; cbn [fst]; intros H.
  - exists (S (3 * n)). cbn [run step]. rewrite run_loop. cbn [fst app filter].
    cbn [is_portb_write is_delay].
    now rewrite portb_writes_loop_trace, delays_loop_trace.
  - exists (3 * n)%nat. rewrite run_loop. cbn [fst].
    now rewrite portb_writes_loop_trace, delays_loop_trace.
  - exists (S (S (3 * n))). cbn [run step]. rewrite run_loop.
    cbn [fst app filter is_portb_write is_delay length].
    rewrite portb_writes_loop_trace, delays_loop_trace. lia.
  - exists (S (3 * n)). cbn [run step]. rewrite run_loop.
    cbn [fst app filter is_portb_write is_delay length].
    rewrite portb_writes_loop_trace, delays_loop_trace. lia.
  - now destruct H.
Qed.

(** C4: a state reachable from the start of [main] is never the return
    point and always has a successor; from it there are executions of every
    length, and executions holding any wanted number of further toggles
    and delays. *)
Theorem main_never_returns (v : variant) (r0 : regs) (s : state)
    (H : reachable v r0 s) :
  fst s <> AtReturn
  /\ (exists t s', Step v s t s')
  /\ (forall n : nat, exists tr s', StepsN v n s tr s')
  /\ (forall n : nat, exists tr s',
        Steps v s tr s'
        /\ (n <= length (filter is_portb_write tr))%nat
        /\ (n <= length (filter is_delay tr))%nat).
Proof.
  pose proof (reachable_not_returned v r0 s H) as Hnr.
  split; [exact Hnr | ].
  split; [now apply not_returned_progress | ].
  split.
  - intros n. eexists _, _. now apply not_returned_StepsN.
  - intros n. destruct (toggles_from v n s Hnr) as (k & Hp & Hd).
    exists (fst (run v k s)), (snd (run v k s)).
    split; [apply run_Steps | now split].
Qed.

Lemma main_never_returns_witness :
  reachable WithPB5 (mkRegs 0 0) (AtToggle, mkRegs 32 0)
  /\ fst (AtToggle, mkRegs 32 0) <> AtReturn.
Proof.
  assert (reachable WithPB5 (mkRegs 0 0) (AtToggle, mkRegs 32 0)) as Hr.
  { exists (fst (run WithPB5 2 (initial (mkRegs 0 0)))).
    exact (run_Steps WithPB5 2 (initial (mkRegs 0 0))). }
  split; [exact Hr | ].
  exact (proj1 (main_never_returns WithPB5 (mkRegs 0 0) _ Hr)).
Defined.

(* ================================================================== *)
(** ** One loop iteration *)

(** C5: one pass through the loop, from the loop test back to it, emits
    exactly two events in this order: the store to PORTB of its content with
    bit 5 inverted, then a delay of 1000; whatever the start state and the
    number of steps, every delay of a run is a delay of 1000; and the events
    of a pass are fixed by the content of PORTB when it starts. *)
Theorem iteration_toggles_then_delays (v : variant) (r : regs) :
  run v 3 (AtWhile, r)
    = ([WrPORTB (wrap8 (Z.lxor (PORTB r) 32)); DelayMs 1000],
       (AtWhile, toggle v r))
  /\ Z.testbit (wrap8 (Z.lxor (PORTB r) 32)) 5 = negb (Z.testbit (PORTB r) 5)
  /\ (forall (n : nat) (s : state) (d : Z),
        In (DelayMs d) (fst (run v n s)) -> d = 1000)
  /\ (forall r' : regs,
        PORTB r' = PORTB r ->
        fst (run v 3 (AtWhile, r')) = fst (run v 3 (AtWhile, r))).
Proof.
  assert (forall x, run v 3 (AtWhile, x)
                    = ([WrPORTB (wrap8 (Z.lxor (PORTB x) 32)); DelayMs 1000],
                       (AtWhile, toggle v x))) as Hrun.
  { intros x. change (run v 3 (AtWhile, x)) with (run v (3 + 0) (AtWhile, x)).
    rewrite run_iteration. cbn [run fst snd toggle PORTB].
    now rewrite mask_value. }
  split; [apply Hrun | ].
  split.
  { rewrite <- (mask_value v). apply (toggle_PORTB_bit5 v r). }
  split.
  - intros n s d Hin.
    destruct (run_invariant v _ _ (delay_step v) n s I) as [_ Hall].
    rewrite Forall_forall in Hall. exact (Hall _ Hin).
  - intros r' Heq. rewrite !Hrun. cbn [fst]. now rewrite Heq.
Qed.

Lemma iteration_toggles_then_delays_witness :
  In (DelayMs 1000) (fst (run WithPB5 4 (initial (mkRegs 0 0))))
  /\ 1000 = 1000
  /\ fst (run WithPB5 3 (AtWhile, mkRegs 7 3))
     = fst (run WithPB5 3 (AtWhile, mkRegs 0 3)).
Proof.
  pose proof (iteration_toggles_then_delays WithPB5 (mkRegs 0 3))
    as (_ & _ & Hdelay & Hsame).
  assert (In (DelayMs 1000) (fst (run WithPB5 4 (initial (mkRegs 0 0)))))
    as Hin by (vm_compute; right; right; left; reflexivity).
  split; [exact Hin | ].
  split.
  - exact (Hdelay 4%nat (initial (mkRegs 0 0)) 1000 Hin).
  - apply (Hsame (mkRegs 7 3)). reflexivity.
Defined.

(* ================================================================== *)
(** ** Determinism *)

Lemma StepsN_prefix (v : variant) (n1 : nat) (s s1 : state) (tr1 : list event) :
  StepsN v n1 s tr1 s1 ->
  forall (n2 : nat) (tr2 : list event) (s2 : state),
    StepsN v n2 s tr2 s2 -> (n1 <= n2)%nat ->
    exists tr', tr2 = tr1 ++ tr' /\ StepsN v (n2 - n1) s1 tr' s2.
Proof.
  induction 1 as [s | n s1 t1 s2 t2 s3 H1 _ IH]; intros n2 tr2 s2' H2 Hle.
  - exists tr2. rewrite Nat.sub_0_r. now split.
  - inversion H2 as [ | m a ta b tb c Ha Hb]; subst; [lia | ].
    destruct (Step_deterministic v _ _ _ _ _ H1 Ha) as [-> ->].
    destruct (IH _ _ _ Hb ltac:(lia)) as (tr' & -> & Hrest).
    exists tr'. rewrite <- app_assoc. now split.
Qed.

(** C7: [main] has no parameter and its steps read nothing but the
    registers, so two executions started on the same DDRB and PORTB go
    through the same register writes and delays: the shorter one's trace
    is the start of the longer one's, the longer one continuing from where
    the shorter one stands, and with equal numbers of steps both the traces
    and the final states coincide. *)
Theorem main_deterministic (v : variant) (r0 : regs) (n1 n2 : nat)
    (tr1 tr2 : list event) (s1 s2 : state)
    (H1 : StepsN v n1 (initial r0) tr1 s1)
    (H2 : StepsN v n2 (initial r0) tr2 s2)
    (Hle : (n1 <= n2)%nat) :
  (exists tr', tr2 = tr1 ++ tr' /\ StepsN v (n2 - n1) s1 tr' s2)
  /\ (n1 = n2 -> tr1 = tr2 /\ s1 = s2).
Proof.
  destruct (StepsN_prefix v _ _ _ _ H1 _ _ _ H2 Hle) as (tr' & Htr & Hrest).
  split; [now exists tr' | ].
  intros ->. rewrite Nat.sub_diag in Hrest.
  inversion Hrest; subst. now rewrite app_nil_r.
Qed.

Lemma main_deterministic_witness :
  [WrDDRB 32; WrPORTB 32] = [WrDDRB 32] ++ [WrPORTB 32]
  /\ StepsN WithPB5 2 (AtWhile, mkRegs 32 0) [WrPORTB 32]
       (AtDelay, mkRegs 32 32).
Proof.
  assert (StepsN WithPB5 1 (initial (mkRegs 0 0)) [WrDDRB 32]
            (AtWhile, mkRegs 32 0)) as H1
    by exact (not_returned_StepsN WithPB5 1 (initial (mkRegs 0 0))
                ltac:(discriminate)).
  assert (StepsN WithPB5 3 (initial (mkRegs 0 0)) [WrDDRB 32; WrPORTB 32]
            (AtDelay, mkRegs 32 32)) as H2
    by exact (not_returned_StepsN WithPB5 3 (initial (mkRegs 0 0))
                ltac:(discriminate)).
  destruct (main_deterministic WithPB5 (mkRegs 0 0) 1 3 _ _ _ _ H1 H2
              ltac:(lia)) as [(tr' & Htr & Hrest) _].
  injection Htr as <-.
  split; [reflexivity | exact Hrest].
Defined.

(* ================================================================== *)
(** ** Frame *)

(** C8: after any number of steps of either variant, bits 0-4, 6 and 7 of
    DDRB and of PORTB are what they were initially, and every value the run
    has stored to DDRB or PORTB agrees with the register's initial content
    on those bits; the setup statement leaves PORTB as it is and the toggle
    statement leaves DDRB as it is. *)
Theorem only_bit5_modified (v : variant) (r0 : regs) (n : nat) (i : Z)
    (Hi : 0 <= i < 8) (Hne : i <> 5) :
  Z.testbit (DDRB (snd (snd (run v n (initial r0))))) i = Z.testbit (DDRB r0) i
  /\ Z.testbit (PORTB (snd (snd (run v n (initial r0))))) i
     = Z.testbit (PORTB r0) i
  /\ (forall x, In (WrDDRB x) (fst (run v n (initial r0))) ->
        Z.testbit x i = Z.testbit (DDRB r0) i)
  /\ (forall x, In (WrPORTB x) (fst (run v n (initial r0))) ->
        Z.testbit x i = Z.testbit (PORTB r0) i)
  /\ PORTB (setup v r0) = PORTB r0
  /\ DDRB (toggle v r0) = DDRB r0.
Proof.
  assert (frame r0 (snd (initial r0))) as H0
    by (split; apply same_outside_bit5_refl).
  destruct (run_invariant v _ _ (frame_step v r0) n (initial r0) H0)
    as [[Hd Hp] Htr].
  rewrite Forall_forall in Htr.
  split; [now apply Hd | ].
  split; [now apply Hp | ].
  split; [ | split; [ | split; reflexivity ] ].
  - intros x Hin. now apply (Htr _ Hin).
  - intros x Hin. now apply (Htr _ Hin).
Qed.

Lemma only_bit5_modified_witness :
  Z.testbit (DDRB (snd (snd (run WithLiteral5 9 (initial (mkRegs 195 129))))))
            7
  = Z.testbit (DDRB (mkRegs 195 129)) 7.
Proof.
  exact (proj1 (only_bit5_modified WithLiteral5 (mkRegs 195 129) 9 7
                  ltac:(lia) ltac:(lia))).
Defined.

(* ================================================================== *)
(** ** Phase at startup *)

(** C9: in a run that reaches the first toggle, the first value stored to
    PORTB is the initial content with bit 5 inverted, and it is what PORTB
    holds after the first iteration; so its bit 5 is the complement of the
    initial one, is high when the initial one is low, and from the reset
    value 0 the stored value is 32. *)
Theorem first_level_is_complement (v : variant) (r0 : regs) (n : nat) :
  first_portb_write (fst (main_upto v (S n) r0))
    = Some (wrap8 (Z.lxor (PORTB r0) 32))
  /\ PORTB (snd (snd (main_upto v 1 r0))) = wrap8 (Z.lxor (PORTB r0) 32)
  /\ Z.testbit (wrap8 (Z.lxor (PORTB r0) 32)) 5
     = negb (Z.testbit (PORTB r0) 5)
  /\ (Z.testbit (PORTB r0) 5 = false ->
      Z.testbit (wrap8 (Z.lxor (PORTB r0) 32)) 5 = true)
  /\ (PORTB r0 = 0 -> wrap8 (Z.lxor (PORTB r0) 32) = 32).
Proof.
  assert (Z.testbit (wrap8 (Z.lxor (PORTB r0) 32)) 5
          = negb (Z.testbit (PORTB r0) 5)) as Hbit.
  { rewrite <- (mask_value v). apply (toggle_PORTB_bit5 v r0). }
  rewrite !main_upto_eq.
  cbn [fst snd loop_trace first_portb_write after_toggles toggle setup PORTB].
  rewrite mask_value.
  repeat split.
  - exact Hbit.
  - intros H0. now rewrite Hbit, H0.
  - intros ->. reflexivity.
Qed.

Lemma first_level_is_complement_witness :
  Z.testbit (wrap8 (Z.lxor (PORTB (mkRegs 0 0)) 32)) 5 = true
  /\ wrap8 (Z.lxor (PORTB (mkRegs 0 0)) 32) = 32.
Proof.
  pose proof (first_level_is_complement WithPB5 (mkRegs 0 0) 0)
    as (_ & _ & _ & Hhigh & Hreset).
  split; [apply Hhigh | apply Hreset]; reflexivity.
Defined.

(* ================================================================== *)
(** ** Repeating the setup *)

(** C10: on a register state whose DDRB is a byte with bit 5 already set,
    [DDRB |= (1 << 5)] changes nothing; hence running the setup statement
    a second time leaves the registers as the first run left them. *)
Theorem setup_idempotent (v : variant) (r : regs) :
  (reg_ok (DDRB r) -> Z.testbit (DDRB r) 5 = true -> setup v r = r)
  /\ setup v (setup v r) = setup v r.
Proof.
  assert (forall x, reg_ok (DDRB x) -> Z.testbit (DDRB x) 5 = true ->
                    setup v x = x) as Hfix.
  { intros [d p] Hok H5. unfold setup. cbn [DDRB PORTB] in *.
    rewrite mask_value, (lor_32_fixed d H5). now rewrite wrap8_small. }
  split; [apply Hfix | ].
  apply Hfix.
  - apply wrap8_range.
  - rewrite setup_DDRB_bit by lia. apply orb_true_r.
Qed.

Lemma setup_idempotent_witness :
  setup WithPB5 (mkRegs 32 0) = mkRegs 32 0.
Proof.
  apply (proj1 (setup_idempotent WithPB5 (mkRegs 32 0)));
    [unfold reg_ok; cbn; lia | reflexivity].
Defined.

(* ================================================================== *)
(** ** The sketches on concrete registers *)

Example set_clear_from_high :
  sketch_upto loop_set_clear 1 (mkRegs 0 161)
  = ([WrDDRB 32; WrPORTB 161; DelayMs 1000; WrPORTB 129; DelayMs 1000],
     mkRegs 32 129).
Proof. reflexivity. Qed.

Example toggle_from_high :
  sketch_upto loop_toggle 2 (mkRegs 0 161)
  = ([WrDDRB 32; WrPORTB 129; DelayMs 1000; WrPORTB 161; DelayMs 1000],
     mkRegs 32 161).
Proof. reflexivity. Qed.

(* ================================================================== *)
(** ** Bytes, bit by bit *)

Lemma wrap8_bits (z i : Z) :
  0 <= i -> Z.testbit (wrap8 z) i = (i <? 8) && Z.testbit z i.
Proof.
  intros Hi. destruct (Z.ltb_spec i 8) as [Hlt | Hge]; cbn [andb].
  - apply wrap8_testbit. lia.
  - unfold wrap8. change 256 with (2 ^ 8). apply Z.mod_pow2_bits_high. lia.
Qed.

Lemma reg_ok_high_bits (p i : Z) :
  reg_ok p -> 8 <= i -> Z.testbit p i = false.
Proof.
  intros Hok Hi. rewrite <- (wrap8_small p Hok), wrap8_bits by lia.
  destruct (Z.ltb_spec i 8); [lia | reflexivity].
Qed.

Lemma bit_of_32 (i : Z) : 0 <= i -> Z.testbit 32 i = (i =? 5).
Proof.
  intros Hi. change 32 with (2 ^ 5). rewrite Z.pow2_bits_eqb by lia.
  apply Z.eqb_sym.
Qed.

(** Inverting bit 5 of a byte gives a byte. *)
Lemma wrap8_lxor_32 (p : Z) : reg_ok p -> wrap8 (Z.lxor p 32) = Z.lxor p 32.
Proof.
  intros Hok. apply Z.bits_inj'. intros i Hi.
  rewrite wrap8_bits, Z.lxor_spec, bit_of_32 by exact Hi.
  destruct (Z.ltb_spec i 8) as [Hlt | Hge]; cbn [andb]; [reflexivity | ].
  rewrite (reg_ok_high_bits p i Hok Hge).
  destruct (Z.eqb_spec i 5); [lia | reflexivity].
Qed.

Lemma lxor_32_twice (p : Z) : Z.lxor (Z.lxor p 32) 32 = p.
Proof. now rewrite Z.lxor_assoc, Z.lxor_nilpotent, Z.lxor_0_r. Qed.

Lemma land_32_clear (q : Z) : Z.testbit q 5 = false -> Z.land q 32 = 0.
Proof.
  intros H5. apply Z.bits_inj'. intros i Hi.
  rewrite Z.land_spec, bit_of_32, Z.bits_0 by exact Hi.
  destruct (Z.eqb_spec i 5) as [-> | Hne].
  - rewrite H5. reflexivity.
  - apply andb_false_r.
Qed.

(** Inverting bit 5 adds 32 when the bit is clear and subtracts 32 when it
    is set. *)
Lemma lxor_32_arith (p : Z) :
  Z.lxor p 32 = if Z.testbit p 5 then p - 32 else p + 32.
Proof.
  destruct (Z.testbit p 5) eqn:H5.
  - assert (Z.testbit (Z.lxor p 32) 5 = false) as Hq
      by (rewrite Z.lxor_spec, H5; reflexivity).
    pose proof (Z.add_nocarry_lxor _ _ (land_32_clear _ Hq)) as Hadd.
    rewrite lxor_32_twice in Hadd. lia.
  - symmetry. apply Z.add_nocarry_lxor. now apply land_32_clear.
Qed.

Lemma toggle_toggle (v : variant) (r : regs) :
  reg_ok (PORTB r) -> toggle v (toggle v r) = r.
Proof.
  destruct r as [d p]. unfold toggle. cbn [DDRB PORTB]. intros Hok.
  rewrite mask_value, (wrap8_lxor_32 p Hok), lxor_32_twice.
  now rewrite (wrap8_small p Hok).
Qed.

Lemma toggle_reg_ok (v : variant) (r : regs) : reg_ok (PORTB (toggle v r)).
Proof. apply wrap8_range. Qed.

(* ================================================================== *)
(** ** The register state is periodic *)

(** X1: on registers whose PORTB is a byte, executing the toggle statement
    twice gives back the very same registers, all bits included.  So after
    an even number of loop iterations [main] is at the loop test with
    exactly the registers the setup left, and after an odd number with
    those registers toggled once. *)
Theorem toggle_involutive (v : variant) (r0 : regs) (n : nat)
    (Hok : reg_ok (PORTB r0)) :
  toggle v (toggle v r0) = r0
  /\ snd (main_upto v (2 * n) r0) = (AtWhile, setup v r0)
  /\ snd (main_upto v (S (2 * n)) r0) = (AtWhile, toggle v (setup v r0)).
Proof.
  assert (forall m r, reg_ok (PORTB r) -> after_toggles v (2 * m) r = r)
    as Heven.
  { induction m as [| m IH]; intros r Hr; [reflexivity | ].
    replace (2 * S m)%nat with (S (S (2 * m))) by lia.
    cbn [after_toggles]. rewrite (toggle_toggle v r Hr). now apply IH. }
  split; [now apply toggle_toggle | ].
  rewrite !main_upto_eq. cbn [snd after_toggles].
  split; f_equal.
  - apply Heven. exact Hok.
  - apply Heven. apply toggle_reg_ok.
Qed.

Lemma toggle_involutive_witness :
  toggle WithPB5 (toggle WithPB5 (mkRegs 195 161)) = mkRegs 195 161
  /\ snd (main_upto WithPB5 (2 * 3) (mkRegs 195 161))
     = (AtWhile, setup WithPB5 (mkRegs 195 161)).
Proof.
  pose proof (toggle_involutive WithPB5 (mkRegs 195 161) 3
                ltac:(unfold reg_ok; cbn; lia)) as (H2 & He & _).
  split; [exact H2 | exact He].
Defined.

(* ================================================================== *)
(** ** The loop stores two values in turn *)

Lemma flat_map_shift {A : Type} (f : nat -> list A) (n : nat) :
  flat_map f (seq 1 n) = flat_map (fun k => f (S k)) (seq 0 n).
Proof.
  rewrite <- seq_shift. generalize (seq 0 n) as l.
  induction l as [| k l IH]; cbn; [ | rewrite IH ]; reflexivity.
Qed.

Lemma toggled_value_succ (p : Z) (k : nat) :
  toggled_value p (S k) = toggled_value (Z.lxor p 32) k.
Proof.
  unfold toggled_value. rewrite Nat.even_succ, <- Nat.negb_even.
  destruct (Nat.even k); cbn [negb]; [ | reflexivity ].
  symmetry. apply lxor_32_twice.
Qed.

Lemma loop_trace_closed (v : variant) (n : nat) (r : regs) :
  reg_ok (PORTB r) ->
  loop_trace v n r
  = flat_map (fun k => [WrPORTB (toggled_value (PORTB r) k); DelayMs 1000])
      (seq 0 n).
Proof.
  revert r. induction n as [| n IH]; intros r Hok; [reflexivity | ].
  cbn [loop_trace]. rewrite (IH (toggle v r) (toggle_reg_ok v r)).
  change (seq 0 (S n)) with (0%nat :: seq 1 n).
  cbn [flat_map app]. rewrite flat_map_shift.
  assert (PORTB (toggle v r) = Z.lxor (PORTB r) 32) as Hp.
  { cbn [toggle PORTB]. rewrite mask_value. now apply wrap8_lxor_32. }
  rewrite Hp. unfold toggled_value at 1. cbn [Nat.even].
  do 2 f_equal. apply flat_map_ext. intros k.
  now rewrite toggled_value_succ.
Qed.

(** X2: started on byte-valued registers, the whole trace of [main] up to
    the end of the [n]-th iteration is known in closed form: one store of
    [DDRB | 32], then for each iteration [k = 0, 1, ...] a store to PORTB
    followed by a delay of 1000, where the stored value is the initial
    PORTB with bit 5 inverted when [k] is even and the initial PORTB itself
    when [k] is odd.  The inverted value is the initial one plus 32 when
    bit 5 was clear and minus 32 when it was set. *)
Theorem main_trace_closed_form (v : variant) (n : nat) (r0 : regs)
    (Hd : reg_ok (DDRB r0)) (Hp : reg_ok (PORTB r0)) :
  fst (main_upto v n r0)
  = WrDDRB (Z.lor (DDRB r0) 32)
      :: flat_map
           (fun k => [WrPORTB (toggled_value (PORTB r0) k); DelayMs 1000])
           (seq 0 n)
  /\ Z.lxor (PORTB r0) 32
     = (if Z.testbit (PORTB r0) 5 then PORTB r0 - 32 else PORTB r0 + 32).
Proof.
  split; [ | apply lxor_32_arith ].
  rewrite main_upto_eq. cbn [fst].
  rewrite (loop_trace_closed v n (setup v r0)) by exact Hp.
  cbn [setup DDRB PORTB]. rewrite mask_value. f_equal. f_equal.
  apply Z.bits_inj'. intros i Hi.
  rewrite wrap8_bits, Z.lor_spec, bit_of_32 by exact Hi.
  destruct (Z.ltb_spec i 8) as [Hlt | Hge]; cbn [andb]; [reflexivity | ].
  rewrite (reg_ok_high_bits _ i Hd Hge).
  destruct (Z.eqb_spec i 5); [lia | reflexivity].
Qed.

Lemma main_trace_closed_form_witness :
  fst (main_upto WithLiteral5 3 (mkRegs 195 161))
  = [WrDDRB 227; WrPORTB 129; DelayMs 1000; WrPORTB 161; DelayMs 1000;
     WrPORTB 129; DelayMs 1000].
Proof.
  exact (proj1 (main_trace_closed_form WithLiteral5 3 (mkRegs 195 161)
                  ltac:(unfold reg_ok; cbn; lia)
                  ltac:(unfold reg_ok; cbn; lia))).
Defined.

(* ================================================================== *)
(** ** The sketch that sets and clears the bit *)

Lemma byte_eq (a b : Z) :
  reg_ok a -> reg_ok b ->
  (forall i, 0 <= i < 8 -> Z.testbit a i = Z.testbit b i) -> a = b.
Proof.
  intros Ha Hb Hbits. apply Z.bits_inj'. intros i Hi.
  destruct (Z.ltb_spec i 8) as [Hlt | Hge].
  - apply Hbits. lia.
  - now rewrite (reg_ok_high_bits a i Ha Hge), (reg_ok_high_bits b i Hb Hge).
Qed.

Lemma portb_set_bit (r : regs) (i : Z) :
  0 <= i < 8 ->
  Z.testbit (PORTB (portb_set r)) i = Z.testbit (PORTB r) i || (i =? 5).
Proof.
  intros Hi. cbn [portb_set PORTB]. change (Z.shiftl 1 5) with 32.
  rewrite wrap8_testbit, Z.lor_spec, bit_of_32 by lia. reflexivity.
Qed.

Lemma portb_clear_bit (r : regs) (i : Z) :
  0 <= i < 8 ->
  Z.testbit (PORTB (portb_clear r)) i
  = Z.testbit (PORTB r) i && negb (i =? 5).
Proof.
  intros Hi. cbn [portb_clear PORTB]. change (Z.shiftl 1 5) with 32.
  rewrite wrap8_testbit, Z.land_spec, Z.lnot_spec, bit_of_32 by lia.
  reflexivity.
Qed.

Lemma portb_set_again (r : regs) :
  portb_set (portb_clear (portb_set r)) = portb_set r.
Proof.
  unfold portb_set at 1 3. cbn [DDRB]. f_equal.
  apply byte_eq; try apply wrap8_range. intros i Hi.
  change (Z.testbit (PORTB (portb_set (portb_clear (portb_set r)))) i
          = Z.testbit (PORTB (portb_set r)) i).
  rewrite !portb_set_bit, portb_clear_bit, portb_set_bit by exact Hi.
  destruct (Z.testbit (PORTB r) i), (i =? 5); reflexivity.
Qed.

Lemma loop_set_clear_again (r : regs) :
  loop_set_clear (snd (loop_set_clear r)) = loop_set_clear r.
Proof.
  unfold loop_set_clear. cbn [snd]. now rewrite portb_set_again.
Qed.

Lemma repeat_loop_succ (body : action) (n : nat) (r : regs) :
  repeat_loop body (S n) r
  = (fst (body r) ++ fst (repeat_loop body n (snd (body r))),
     snd (repeat_loop body n (snd (body r)))).
Proof.
  cbn [repeat_loop]. destruct (body r) as [t r1]. cbn [fst snd].
  now destruct (repeat_loop body n r1).
Qed.

Lemma repeat_set_clear (n : nat) (r : regs) :
  repeat_loop loop_set_clear (S n) r
  = (concat (repeat (fst (loop_set_clear r)) (S n)), snd (loop_set_clear r)).
Proof.
  revert r. induction n as [| n IH]; intros r.
  - rewrite repeat_loop_succ. cbn [repeat_loop fst snd repeat concat].
    reflexivity.
  - rewrite repeat_loop_succ, IH, loop_set_clear_again. reflexivity.
Qed.

(** X3: one call of the set-and-clear [loop] performs exactly four events:
    it stores [PORTB | 32], waits 1000, stores [PORTB & ~32], waits 1000
    (both values as bytes), and leaves the second value in PORTB and DDRB
    as it was.  Whatever PORTB held before, the first stored value has
    bit 5 set and the second has it clear, and both keep bits 0-4, 6 and 7
    of the PORTB the call started from.  From the second call on nothing
    changes any more: [n + 1] calls perform these four events [n + 1]
    times over and end in the registers the first call left. *)
Theorem set_clear_call (r : regs) (n : nat) :
  let hi := wrap8 (Z.lor (PORTB r) 32) in
  let lo := wrap8 (Z.land (PORTB r) (Z.lnot 32)) in
  loop_set_clear r
    = ([WrPORTB hi; DelayMs 1000; WrPORTB lo; DelayMs 1000],
       mkRegs (DDRB r) lo)
  /\ Z.testbit hi 5 = true
  /\ Z.testbit lo 5 = false
  /\ (forall i : Z, 0 <= i < 8 -> i <> 5 ->
        Z.testbit hi i = Z.testbit (PORTB r) i
        /\ Z.testbit lo i = Z.testbit (PORTB r) i)
  /\ repeat_loop loop_set_clear (S n) r
     = (concat (repeat [WrPORTB hi; DelayMs 1000; WrPORTB lo; DelayMs 1000]
                  (S n)),
        mkRegs (DDRB r) lo).
Proof.
  intros hi lo.
  assert (PORTB (portb_set r) = hi) as Hhi by reflexivity.
  assert (PORTB (portb_clear (portb_set r)) = lo) as Hlo.
  { apply byte_eq; try apply wrap8_range. intros i Hi.
    rewrite portb_clear_bit, portb_set_bit by exact Hi.
    unfold lo. rewrite wrap8_testbit, Z.land_spec, Z.lnot_spec, bit_of_32
      by lia.
    destruct (Z.testbit (PORTB r) i), (i =? 5); reflexivity. }
  assert (loop_set_clear r
          = ([WrPORTB hi; DelayMs 1000; WrPORTB lo; DelayMs 1000],
             mkRegs (DDRB r) lo)) as Hcall.
  { unfold loop_set_clear. rewrite Hhi, Hlo. do 2 f_equal.
    rewrite <- Hlo. reflexivity. }
  split; [exact Hcall | ].
  split; [rewrite <- Hhi, portb_set_bit by lia; apply orb_true_r | ].
  split.
  { rewrite <- Hlo, portb_clear_bit by lia. apply andb_false_r. }
  split.
  { intros i Hi Hne.
    rewrite <- Hlo, <- Hhi, portb_clear_bit, !portb_set_bit by exact Hi.
    rewrite (proj2 (Z.eqb_neq i 5) Hne). cbn [negb].
    now rewrite orb_false_r, andb_true_r. }
  rewrite repeat_set_clear, Hcall. reflexivity.
Qed.

Lemma set_clear_call_witness :
  Z.testbit (wrap8 (Z.lor (PORTB (mkRegs 32 129)) 32)) 7
  = Z.testbit (PORTB (mkRegs 32 129)) 7
  /\ loop_set_clear (mkRegs 32 129)
     = ([WrPORTB 161; DelayMs 1000; WrPORTB 129; DelayMs 1000],
        mkRegs 32 129).
Proof.
  pose proof (set_clear_call (mkRegs 32 129) 0) as (Hcall & _ & _ & Hframe & _).
  split.
  - exact (proj1 (Hframe 7 ltac:(lia) ltac:(lia))).
  - exact Hcall.
Defined.

Lemma set_clear_levels (n : nat) (r : regs) (cur t : Z) :
  0 <= t < 2000 * Z.of_nat n ->
  Z.testbit (port_at (fst (repeat_loop loop_set_clear n r)) cur t) 5
  = Z.even (t / 1000).
Proof.
  revert r cur t. induction n as [| n IH]; intros r cur t Ht; [lia | ].
  rewrite repeat_loop_succ. cbn [fst].
  unfold loop_set_clear at 1. cbn [fst app port_at].
  destruct (Z.ltb_spec t 1000) as [H1 | H1].
  - rewrite Z.div_small by lia. rewrite portb_set_bit by lia.
    apply orb_true_r.
  - destruct (Z.ltb_spec (t - 1000) 1000) as [H2 | H2].
    + replace (t / 1000) with 1
        by (apply Z.div_unique with (r := t - 1000); lia).
      rewrite portb_clear_bit by lia. apply andb_false_r.
    + rewrite IH by lia.
      replace t with ((t - 1000 - 1000) + 2 * 1000) at 2 by lia.
      rewrite Z.div_add by lia. rewrite Z.even_add. cbn [Z.even].
      now destruct (Z.even ((t - 1000 - 1000) / 1000)).
Qed.

Lemma sketch_upto_trace (body : action) (n : nat) (r0 : regs) :
  fst (sketch_upto body n r0)
  = WrDDRB (DDRB (setup WithLiteral5 r0))
      :: fst (repeat_loop body n (setup WithLiteral5 r0)).
Proof.
  unfold sketch_upto, sketch_setup.
  now destruct (repeat_loop body n (setup WithLiteral5 r0)).
Qed.

(** X4: the waveform of the set-and-clear sketch does not depend on the
    initial registers: during [n] calls of [loop], the output bit is high
    throughout each even window of 1000 time units and low throughout each
    odd one. *)
Theorem set_clear_waveform (n : nat) (r0 : regs) (t : Z)
    (Ht : 0 <= t < 2000 * Z.of_nat n) :
  Z.testbit (port_at (fst (sketch_upto loop_set_clear n r0)) (PORTB r0) t) 5
  = Z.even (t / 1000).
Proof.
  rewrite sketch_upto_trace. cbn [port_at]. now apply set_clear_levels.
Qed.

Lemma set_clear_waveform_witness :
  Z.testbit
    (port_at (fst (sketch_upto loop_set_clear 2 (mkRegs 0 255))) 255 1500) 5
  = false.
Proof.
  exact (set_clear_waveform 2 (mkRegs 0 255) 1500 ltac:(lia)).
Defined.

(* ================================================================== *)
(** ** Set-and-clear against toggle *)

Lemma repeat_toggle (n : nat) (r : regs) :
  repeat_loop loop_toggle n r
  = (loop_trace WithLiteral5 n r, after_toggles WithLiteral5 n r).
Proof.
  revert r. induction n as [| n IH]; intros r; [reflexivity | ].
  rewrite repeat_loop_succ, IH. reflexivity.
Qed.

(** With bit 5 clear in a byte, setting the bit is toggling it, and
    clearing it afterwards is toggling it back. *)
Lemma set_clear_is_two_toggles (r : regs) :
  reg_ok (PORTB r) -> Z.testbit (PORTB r) 5 = false ->
  loop_set_clear r = repeat_loop loop_toggle 2 r.
Proof.
  intros Hok H5.
  assert (portb_set r = toggle WithLiteral5 r) as Hset.
  { unfold portb_set, toggle. f_equal.
    apply byte_eq; try apply wrap8_range. intros i Hi.
    change (Z.testbit (PORTB (portb_set r)) i
            = Z.testbit (PORTB (toggle WithLiteral5 r)) i).
    rewrite portb_set_bit, toggle_PORTB_bit by exact Hi.
    destruct (Z.eqb_spec i 5) as [-> | Hne].
    - now rewrite H5.
    - now rewrite orb_false_r, xorb_false_r. }
  assert (portb_clear (portb_set r) = r) as Hclear.
  { destruct r as [d p]. cbn [PORTB] in *.
    unfold portb_clear. cbn [DDRB]. f_equal.
    apply byte_eq; [apply wrap8_range | exact Hok | ]. intros i Hi.
    change (Z.testbit (PORTB (portb_clear (portb_set (mkRegs d p)))) i
            = Z.testbit p i).
    rewrite portb_clear_bit, portb_set_bit by exact Hi. cbn [PORTB].
    destruct (Z.eqb_spec i 5) as [-> | Hne].
    - rewrite H5. reflexivity.
    - cbn [negb]. now rewrite orb_false_r, andb_true_r. }
  rewrite repeat_toggle. cbn [loop_trace after_toggles].
  unfold loop_set_clear. rewrite Hclear, Hset.
  now rewrite (toggle_toggle WithLiteral5 r Hok).
Qed.

Lemma repeat_set_clear_toggle (n : nat) (r : regs) :
  reg_ok (PORTB r) -> Z.testbit (PORTB r) 5 = false ->
  repeat_loop loop_set_clear n r = repeat_loop loop_toggle (2 * n) r.
Proof.
  intros Hok H5. induction n as [| n IH]; [reflexivity | ].
  replace (2 * S n)%nat with (S (S (2 * n))) by lia.
  rewrite repeat_loop_succ, (set_clear_is_two_toggles r Hok H5).
  rewrite (repeat_toggle 2 r). cbn [fst snd loop_trace after_toggles app].
  rewrite (toggle_toggle WithLiteral5 r Hok), IH, !repeat_toggle.
  cbn [fst snd loop_trace after_toggles].
  now rewrite (toggle_toggle WithLiteral5 r Hok).
Qed.

(** X5: when PORTB starts as a byte with bit 5 clear (as after a reset),
    the sketch whose [loop] sets the bit, waits, clears it and waits does,
    in [n] calls of [loop], exactly what the sketch whose [loop] toggles the
    bit and waits does in [2 * n] calls: the same events in the same order
    and the same final registers. *)
Theorem set_clear_equals_toggle (n : nat) (r0 : regs)
    (Hok : reg_ok (PORTB r0)) (H5 : Z.testbit (PORTB r0) 5 = false) :
  sketch_upto loop_set_clear n r0 = sketch_upto loop_toggle (2 * n) r0.
Proof.
  unfold sketch_upto, sketch_setup.
  now rewrite (repeat_set_clear_toggle n (setup WithLiteral5 r0) Hok H5).
Qed.

Lemma set_clear_equals_toggle_witness :
  sketch_upto loop_set_clear 3 (mkRegs 0 129)
  = sketch_upto loop_toggle (2 * 3) (mkRegs 0 129).
Proof.
  exact (set_clear_equals_toggle 3 (mkRegs 0 129)
           ltac:(unfold reg_ok; cbn; lia) ltac:(reflexivity)).
Defined.

(** X6: when bit 5 of PORTB is set at the start, the two sketches are no
    longer interchangeable: at every instant of the first [n] set-and-clear
    calls the toggling sketch drives the opposite level, and already the
    first value stored to PORTB differs. *)
Theorem toggle_phase_follows_start (n : nat) (r0 : regs) (t : Z)
    (H5 : Z.testbit (PORTB r0) 5 = true)
    (Ht : 0 <= t < 2000 * Z.of_nat n) :
  Z.testbit (port_at (fst (sketch_upto loop_toggle (2 * n) r0)) (PORTB r0) t) 5
  = negb (Z.testbit
            (port_at (fst (sketch_upto loop_set_clear n r0)) (PORTB r0) t) 5)
  /\ first_portb_write (fst (sketch_upto loop_toggle (2 * n) r0))
     <> first_portb_write (fst (sketch_upto loop_set_clear n r0)).
Proof.
  split.
  - rewrite !sketch_upto_trace. cbn [port_at].
    rewrite set_clear_levels by exact Ht.
    rewrite repeat_toggle. cbn [fst].
    rewrite port_at_loop_trace by (unfold delay_ms; lia).
    rewrite setup_PORTB, H5. unfold delay_ms.
    now destruct (Z.even (t / 1000)).
  - destruct n as [| n]; [lia | ].
    rewrite !sketch_upto_trace, repeat_toggle, repeat_loop_succ.
    replace (2 * S n)%nat with (S (S (2 * n))) by lia.
    cbn [fst loop_trace loop_set_clear app first_portb_write].
    intros Heq. injection Heq as Heq.
    assert (Z.testbit (PORTB (toggle WithLiteral5 (setup WithLiteral5 r0))) 5
            = Z.testbit (PORTB (portb_set (setup WithLiteral5 r0))) 5) as Hb
      by exact (f_equal (fun z => Z.testbit z 5) Heq).
    rewrite toggle_PORTB_bit5 in Hb. rewrite portb_set_bit in Hb by lia.
    change (PORTB (setup WithLiteral5 r0)) with (PORTB r0) in Hb.
    rewrite H5 in Hb. discriminate Hb.
Qed.

Lemma toggle_phase_follows_start_witness :
  Z.testbit
    (port_at (fst (sketch_upto loop_toggle (2 * 2) (mkRegs 0 32))) 32 500) 5
  = negb (Z.testbit
            (port_at (fst (sketch_upto loop_set_clear 2 (mkRegs 0 32))) 32 500)
            5).
Proof.
  exact (proj1 (toggle_phase_follows_start 2 (mkRegs 0 32) 500
                  ltac:(reflexivity) ltac:(lia))).
Defined.

(* ================================================================== *)
(** ** From setup/loop to a single main *)

Lemma setup_variant (v : variant) (r : regs) : setup v r = setup WithLiteral5 r.
Proof. unfold setup. now rewrite !mask_value. Qed.

Lemma toggle_variant (v : variant) (r : regs) :
  toggle v r = toggle WithLiteral5 r.
Proof. unfold toggle. now rewrite !mask_value. Qed.

Lemma loop_trace_variant (v : variant) (n : nat) (r : regs) :
  loop_trace v n r = loop_trace WithLiteral5 n r
  /\ after_toggles v n r = after_toggles WithLiteral5 n r.
Proof.
  revert r. induction n as [| n IH]; intros r; [now split | ].
  cbn [loop_trace after_toggles]. rewrite (toggle_variant v r).
  destruct (IH (toggle WithLiteral5 r)) as [-> ->]. now split.
Qed.

(** X7: folding [setup] and [loop] into one [main] with an endless loop
    changes nothing that can be observed: the toggling sketch, run under
    the setup-once-then-loop-forever model up to the end of the [n]-th call
    of [loop], has performed exactly the events of [main] up to the end of
    its [n]-th iteration and holds the same registers, [main] standing at
    its loop test. *)
Theorem sketch_refined_by_main (v : variant) (n : nat) (r0 : regs) :
  fst (main_upto v n r0) = fst (sketch_upto loop_toggle n r0)
  /\ snd (main_upto v n r0) = (AtWhile, snd (sketch_upto loop_toggle n r0)).
Proof.
  rewrite main_upto_eq. unfold sketch_upto, sketch_setup.
  rewrite repeat_toggle. cbn [fst snd app].
  rewrite (setup_variant v r0).
  destruct (loop_trace_variant v n (setup WithLiteral5 r0)) as [-> ->].
  now split.
Qed.
